(** * Group-membership data access layer

    A shallow embedding of
    [backend/src/ee/services/group/user-group-membership-dal.ts]:
    the four queries of [userGroupMembershipDALFactory] over the relations
    users, groups, user-group memberships, project memberships and
    group-project memberships, together with the properties the
    specification states about them.

    Tables are lists of rows (SQL bags).  A query built with the knex
    builder is read the way SQL evaluates it: FROM and the joins first,
    then the conjunction of every [where] clause, then the projection.
    Rows come out in the order of a nested-loop evaluation; SQL promises no
    order and no property below depends on one.  The optional [tx] argument
    of the operations only selects the connection ([tx || db]) the
    statements are sent over, so it is not a parameter here.
    Awaited storage calls live in a small promise monad whose world holds
    the tables, a script of storage faults and the wall clock. *)

From stdpp Require Import base option list strings gmap sets.

Open Scope string_scope.

(** ** Rows of the tables

    Modelled from the spec: the column types of [@app/db/schemas] are not part
    of the sources; the columns are the ones the queries and the data model
    name. Every column below is NOT NULL. *)

Module Users.
Record t := mk {
  id : string;
  username : string;
  email : string;
  firstName : string;
  lastName : string;
  isGhost : bool
}.
End Users.

Module Groups.
Record t := mk {
  id : string;
  orgId : string;
  name : string;
  slug : string;
  role : string;
  roleId : option string
}.
End Groups.

Module UserGroupMembership.
Record t := mk {
  id : string;
  userId : string;
  groupId : string;
  isPending : bool
}.
End UserGroupMembership.

Module ProjectMembership.
Record t := mk {
  id : string;
  userId : string;
  projectId : string
}.
End ProjectMembership.

Module GroupProjectMembership.
Record t := mk {
  id : string;
  groupId : string;
  projectId : string
}.
End GroupProjectMembership.

Module UserEncryptionKey.
Record t := mk {
  userId : string;
  publicKey : string
}.
End UserEncryptionKey.

(** The database the [db] client (or a transaction handle [tx], which
    addresses the same tables) gives access to. *)
Record Db := mkDb {
  tUsers : list Users.t;
  tGroups : list Groups.t;
  tUserGroupMembership : list UserGroupMembership.t;
  tProjectMembership : list ProjectMembership.t;
  tGroupProjectMembership : list GroupProjectMembership.t;
  tUserEncryptionKey : list UserEncryptionKey.t
}.

(** ** The fragment of the query builder the module uses *)

Section Knex.
Context {A B : Type}.

(** [.join(T, on)]: inner join, one output row per matching pair. *)
Definition join (on : A * B → Prop) `{∀ p, Decision (on p)}
    (l : list A) (r : list B) : list (A * B) :=
  a ← l; (λ b, (a, b)) <$> filter (λ b, on (a, b)) r.

(** [.leftJoin(T, on)]: as [join], but a left row without a partner is
    kept once, with every column of the right side NULL. *)
Definition leftJoin (on : A * B → Prop) `{∀ p, Decision (on p)}
    (l : list A) (r : list B) : list (A * option B) :=
  a ← l;
  match filter (λ b, on (a, b)) r with
  | [] => [(a, None)]
  | bs => (λ b, (a, Some b)) <$> bs
  end.

(** [.pluck(col)]: the list of the values of one column. *)
Definition pluck (col : A → B) (rows : list A) : list B := col <$> rows.
End Knex.

(** ** Promises over a storage layer that can fail *)

(** What the storage layer throws. *)
Inductive StorageFault := Fault (message : string).

(** [new DatabaseError({ error, name })] of [@app/lib/errors]. *)
Record DatabaseError := mkDatabaseError {
  error : StorageFault;
  name : string
}.

(** The world of a call: the tables, for every coming storage call whether it
    fails (an exhausted script means no further fault), and the clock read by
    [new Date()]. *)
Record World := mkWorld {
  tables : Db;
  faults : list (option StorageFault);
  clock : nat → Z;
  ticks : nat
}.

Inductive Outcome (E A : Type) :=
  | Fulfilled (a : A)
  | Rejected (e : E).
Arguments Fulfilled {E A} a.
Arguments Rejected {E A} e.

Definition Async (E A : Type) : Type := World → Outcome E A * World.

Definition ret {E A} (a : A) : Async E A := λ w, (Fulfilled a, w).

Definition bind {E A B} (m : Async E A) (k : A → Async E B) : Async E B :=
  λ w, match m w with
       | (Fulfilled a, w') => k a w'
       | (Rejected e, w') => (Rejected e, w')
       end.

Definition throw {E A} (e : E) : Async E A := λ w, (Rejected e, w).

(** [try { body } catch (error) { handler }] *)
Definition try_catch {E E' A} (body : Async E A) (handler : E → Async E' A)
    : Async E' A :=
  λ w, match body w with
       | (Fulfilled a, w') => (Fulfilled a, w')
       | (Rejected e, w') => handler e w'
       end.

Notation "'let*' x ← m 'in' k" := (bind m (λ x, k))
  (at level 10, x name, m at level 100, k at level 200,
   format "'[v' 'let*'  x  ←  m  'in' '/' k ']'").

Definition advance (w : World) : World :=
  match faults w with
  | [] => w
  | _ :: rest => mkWorld (tables w) rest (clock w) (ticks w)
  end.

Definition next_fault (w : World) : option StorageFault :=
  match faults w with
  | Some f :: _ => Some f
  | _ => None
  end.

(** [await (tx || db)(...)...]: one read statement sent to the store. *)
Definition await_query {A} (q : Db → A) : Async StorageFault A :=
  λ w, match next_fault w with
       | Some f => (Rejected f, advance w)
       | None => (Fulfilled (q (tables w)), advance w)
       end.

(** [new Date()] *)
Definition new_Date {E} : Async E Z :=
  λ w, (Fulfilled (clock w (ticks w)),
        mkWorld (tables w) (faults w) (clock w) (S (ticks w))).

(** [array.map(f)] for a callback that reads the clock. *)
Fixpoint mapM {E A B} (f : A → Async E B) (l : list A) : Async E (list B) :=
  match l with
  | [] => ret []
  | x :: l' =>
      let* y ← f x in
      let* ys ← mapM f l' in
      ret (y :: ys)
  end.

(** Modelled from the spec: [ormify(db, TableName.UserGroupMembership).delete]
    of [@app/lib/knex] is not part of the sources.  It is the bulk
    delete-by-filter primitive: one statement that removes the rows matching
    the filter and resolves to them; a failing statement changes nothing. *)
Definition userGroupMembershipOrm_delete
    (matching : UserGroupMembership.t → Prop) `{∀ m, Decision (matching m)}
    : Async StorageFault (list UserGroupMembership.t) :=
  λ w, match next_fault w with
       | Some f => (Rejected f, advance w)
       | None =>
           let d := tables w in
           let d' := mkDb (tUsers d) (tGroups d)
                       (filter (λ m, ¬ matching m) (tUserGroupMembership d))
                       (tProjectMembership d) (tGroupProjectMembership d)
                       (tUserEncryptionKey d) in
           (Fulfilled (filter matching (tUserGroupMembership d)),
            mkWorld d' (faults (advance w)) (clock w) (ticks w))
       end.

(** ** filterProjectsByUserMembership *)

Definition q_userProjectMemberships (userId : string) (projectIds : list string)
    (d : Db) : list string :=
  pluck ProjectMembership.projectId
    (filter (λ pm, ProjectMembership.userId pm = userId
                   ∧ ProjectMembership.projectId pm ∈ projectIds)
            (tProjectMembership d)).

Definition q_userGroupMemberships (userId groupId : string)
    (projectIds : list string) (d : Db) : list string :=
  pluck (λ row, GroupProjectMembership.projectId row.2)
    (filter (λ row, UserGroupMembership.userId row.1 = userId
                    ∧ UserGroupMembership.groupId row.1 ≠ groupId
                    ∧ GroupProjectMembership.projectId row.2 ∈ projectIds)
       (join (λ on, UserGroupMembership.groupId on.1
                      = GroupProjectMembership.groupId on.2)
             (tUserGroupMembership d) (tGroupProjectMembership d))).

Definition filterProjectsByUserMembership
    (userId groupId : string) (projectIds : list string)
    : Async DatabaseError (gset string) :=
  try_catch
    (let* userProjectMemberships ←
       await_query (q_userProjectMemberships userId projectIds) in
     let* userGroupMemberships ←
       await_query (q_userGroupMemberships userId groupId projectIds) in
     ret (list_to_set (userProjectMemberships ++ userGroupMemberships)))
    (λ error, throw (mkDatabaseError error "Filter projects by user membership")).

(** ** findUserGroupMembershipsInProject *)

Definition q_usernameDocs (usernames : list string) (projectId : string)
    (d : Db) : list string :=
  pluck (λ row, Users.id row.2)
    (filter (λ row, GroupProjectMembership.projectId row.1.2 = projectId
                    ∧ Users.username row.2 ∈ usernames)
       (join (λ on, UserGroupMembership.userId on.1.1 = Users.id on.2)
          (join (λ on, UserGroupMembership.groupId on.1
                       = GroupProjectMembership.groupId on.2)
                (tUserGroupMembership d) (tGroupProjectMembership d))
          (tUsers d))).

Definition findUserGroupMembershipsInProject
    (usernames : list string) (projectId : string)
    : Async DatabaseError (list string) :=
  try_catch
    (let* usernameDocs ← await_query (q_usernameDocs usernames projectId) in
     ret usernameDocs)
    (λ error, throw (mkDatabaseError error "Find user group members in project")).

(** ** findGroupMembersNotInProject *)

(** The columns of the [.select(...)] of the main query. *)
Module MemberRow.
Record t := mk {
  id : string;
  groupId : string;
  email : string;
  username : string;
  firstName : string;
  lastName : string;
  userId : string;
  publicKey : option string
}.
End MemberRow.

Module MemberUser.
Record t := mk {
  email : string;
  username : string;
  firstName : string;
  lastName : string;
  id : string;
  publicKey : option string
}.
End MemberUser.

(** [{ ...data, user: { email, username, firstName, lastName, id, publicKey } }] *)
Module GroupMember.
Record t := mk {
  id : string;
  groupId : string;
  user : MemberUser.t
}.
End GroupMember.

Definition q_groups (groupId projectId : string) (d : Db) : list string :=
  pluck GroupProjectMembership.groupId
    (filter (λ g, GroupProjectMembership.projectId g = projectId
                  ∧ GroupProjectMembership.groupId g ≠ groupId)
            (tGroupProjectMembership d)).

(** The sub-select of [.whereNotIn]. *)
Definition q_usersOfGroups (groups : list string) (d : Db) : list string :=
  pluck UserGroupMembership.userId
    (filter (λ m, UserGroupMembership.groupId m ∈ groups)
            (tUserGroupMembership d)).

(** The [.select(...)] of the main query, on a row of the joined tables. *)
Definition select_member
    (row : UserGroupMembership.t * Users.t * option ProjectMembership.t
           * option UserEncryptionKey.t) : MemberRow.t :=
  MemberRow.mk
    (UserGroupMembership.id row.1.1.1)
    (UserGroupMembership.groupId row.1.1.1)
    (Users.email row.1.1.2)
    (Users.username row.1.1.2)
    (Users.firstName row.1.1.2)
    (Users.lastName row.1.1.2)
    (Users.id row.1.1.2)
    (UserEncryptionKey.publicKey <$> row.2).

(** The callback of [members.map]. *)
Definition to_member (r : MemberRow.t) : GroupMember.t :=
  GroupMember.mk (MemberRow.id r) (MemberRow.groupId r)
    (MemberUser.mk (MemberRow.email r) (MemberRow.username r)
       (MemberRow.firstName r) (MemberRow.lastName r)
       (MemberRow.userId r) (MemberRow.publicKey r)).

Definition q_members (groupId projectId : string) (groups : list string)
    (d : Db) : list MemberRow.t :=
  select_member <$>
  filter (λ row, UserGroupMembership.groupId row.1.1.1 = groupId
                 ∧ UserGroupMembership.isPending row.1.1.1 = false
                 ∧ ProjectMembership.userId <$> row.1.2 = None
                 ∧ Users.isGhost row.1.1.2 = false
                 ∧ UserGroupMembership.userId row.1.1.1
                     ∉ q_usersOfGroups groups d)
    (leftJoin (λ on, UserEncryptionKey.userId on.2 = Users.id on.1.1.2)
       (leftJoin (λ on, Users.id on.1.2 = ProjectMembership.userId on.2
                        ∧ ProjectMembership.projectId on.2 = projectId)
          (join (λ on, UserGroupMembership.userId on.1 = Users.id on.2)
                (tUserGroupMembership d) (tUsers d))
          (tProjectMembership d))
       (tUserEncryptionKey d)).

Definition findGroupMembersNotInProject (groupId projectId : string)
    : Async DatabaseError (list GroupMember.t) :=
  try_catch
    (let* groups ← await_query (q_groups groupId projectId) in
     let* members ← await_query (q_members groupId projectId groups) in
     ret (to_member <$> members))
    (λ error, throw (mkDatabaseError error "Find group members not in project")).

(** ** deletePendingUserGroupMembershipsByUserIds *)

Module RemovedUser.
Record t := mk {
  id : string;
  username : string
}.
End RemovedUser.

Module RemovedGroup.
Record t := mk {
  id : string;
  orgId : string;
  name : string;
  slug : string;
  role : string;
  roleId : option string;
  createdAt : Z;
  updatedAt : Z
}.
End RemovedGroup.

Module Removed.
Record t := mk {
  user : RemovedUser.t;
  group : RemovedGroup.t
}.
End Removed.

Definition q_pendingMembers (userIds : list string) (d : Db)
    : list (UserGroupMembership.t * Groups.t * Users.t) :=
  filter (λ row, UserGroupMembership.userId row.1.1 ∈ userIds
                 ∧ UserGroupMembership.isPending row.1.1 = true)
    (join (λ on, UserGroupMembership.userId on.1.1 = Users.id on.2)
       (join (λ on, UserGroupMembership.groupId on.1 = Groups.id on.2)
             (tUserGroupMembership d) (tGroups d))
       (tUsers d)).

(** The record built from a snapshot row and the two clock readings. *)
Definition removed_of (row : UserGroupMembership.t * Groups.t * Users.t)
    (createdAt updatedAt : Z) : Removed.t :=
  Removed.mk
    (RemovedUser.mk (UserGroupMembership.userId row.1.1) (Users.username row.2))
    (RemovedGroup.mk (UserGroupMembership.groupId row.1.1)
       (Groups.orgId row.1.2) (Groups.name row.1.2) (Groups.slug row.1.2)
       (Groups.role row.1.2) (Groups.roleId row.1.2) createdAt updatedAt).

(** The callback of [members.map]. *)
Definition to_removed {E} (row : UserGroupMembership.t * Groups.t * Users.t)
    : Async E Removed.t :=
  let* createdAt ← new_Date in
  let* updatedAt ← new_Date in
  ret (removed_of row createdAt updatedAt).

Definition deletePendingUserGroupMembershipsByUserIds (userIds : list string)
    : Async DatabaseError (list Removed.t) :=
  try_catch
    (let* members ← await_query (q_pendingMembers userIds) in
     let* _ ← userGroupMembershipOrm_delete
                (λ m, UserGroupMembership.userId m ∈ userIds) in
     mapM to_removed members)
    (λ error, throw (mkDatabaseError error
                       "Delete pending user group memberships by user ids")).

(** ** Running a call *)

(** A store that answers every statement. *)
Definition reliable (d : Db) (clk : nat → Z) : World := mkWorld d [] clk 0.

(** The value a call resolves to, if it does. *)
Definition resolved {E A} (r : Outcome E A * World) : option A :=
  match r.1 with
  | Fulfilled a => Some a
  | Rejected _ => None
  end.


(** The first fault among the next [n] storage calls. *)
Fixpoint first_fault (n : nat) (script : list (option StorageFault))
    : option StorageFault :=
  match n, script with
  | S _, Some f :: _ => Some f
  | S n', None :: script' => first_fault n' script'
  | _, _ => None
  end.

(** ** The relations of the specification *)

(** A direct [ProjectMembership] row exists for the user and the project. *)
Definition direct_member (d : Db) (userId projectId : string) : Prop :=
  ∃ pm, pm ∈ tProjectMembership d
        ∧ ProjectMembership.userId pm = userId
        ∧ ProjectMembership.projectId pm = projectId.

(** The membership row [m] of the user and the grant [g] of its group form a
    path into the project. *)
Definition group_path (d : Db) (userId projectId : string)
    (m : UserGroupMembership.t) (g : GroupProjectMembership.t) : Prop :=
  m ∈ tUserGroupMembership d ∧ g ∈ tGroupProjectMembership d
  ∧ UserGroupMembership.userId m = userId
  ∧ UserGroupMembership.groupId m = GroupProjectMembership.groupId g
  ∧ GroupProjectMembership.projectId g = projectId.

(** The project is reachable through a group other than [excluded]. *)
Definition reachable_excluding (d : Db) (userId excluded projectId : string)
    : Prop :=
  ∃ m g, group_path d userId projectId m g
         ∧ UserGroupMembership.groupId m ≠ excluded.

(** Every membership row points to a user row and to a group row, as the
    foreign keys of the join table have it. *)
Definition foreign_keys (d : Db) : Prop :=
  Forall (λ m, UserGroupMembership.userId m ∈ Users.id <$> tUsers d
               ∧ UserGroupMembership.groupId m ∈ Groups.id <$> tGroups d)
         (tUserGroupMembership d).

(** The user ids of the records a call of [findGroupMembersNotInProject]
    resolved to. *)
Definition member_userIds (members : list GroupMember.t) : list string :=
  (λ r, MemberUser.id (GroupMember.user r)) <$> members.

(** The database with the pending invitations left out: the memberships that
    grant access. *)
Definition accepted_only (d : Db) : Db :=
  mkDb (tUsers d) (tGroups d)
    (filter (λ m, UserGroupMembership.isPending m = false)
            (tUserGroupMembership d))
    (tProjectMembership d) (tGroupProjectMembership d) (tUserEncryptionKey d).

(** The (user, group) pairs of a report of
    [deletePendingUserGroupMembershipsByUserIds]. *)
Definition reported_pairs (removed : list Removed.t) : list (string * string) :=
  (λ r, (RemovedUser.id (Removed.user r), RemovedGroup.id (Removed.group r)))
  <$> removed.

(** The records [members.map] builds when the clock stands at tick [t0]:
    the row at index [i] takes the readings [2 i] and [2 i + 1] after it. *)
Definition stamped (clk : nat → Z) (t0 : nat)
    (rows : list (UserGroupMembership.t * Groups.t * Users.t))
    : list Removed.t :=
  imap (λ i row, removed_of row (clk (t0 + 2 * i)) (clk (t0 + 2 * i + 1)))
       rows.

(** The tables after the bulk delete for [userIds]. *)
Definition after_delete (userIds : list string) (d : Db) : Db :=
  mkDb (tUsers d) (tGroups d)
    (filter (λ m, UserGroupMembership.userId m ∉ userIds)
            (tUserGroupMembership d))
    (tProjectMembership d) (tGroupProjectMembership d) (tUserEncryptionKey d).

(** How a call that sends [calls] statements to the store settles: rejected
    with the first fault among them, wrapped once under the label of the
    operation, or fulfilled when none of them fails. *)
Definition settles {A} (label : string) (calls : nat)
    (op : Async DatabaseError A) (w : World) : Prop :=
  match first_fault calls (faults w) with
  | Some f => (op w).1 = Rejected (mkDatabaseError f label)
  | None => ∃ a, (op w).1 = Fulfilled a
  end.

(** ** A small organisation

    Alice is a direct member of project P1 and has a pending invitation to
    group G1, which is granted P1 and P2.  Bob is an accepted member of G1
    and has a pending invitation to G2, which is granted P3; he is also an
    accepted member of G3, which is granted nothing.  The ghost user and
    Dave are accepted members of G1; only Dave has an encryption key. *)
Module Sample.
Definition alice := Users.mk "U1" "alice" "alice@example.com" "Alice" "A" false.
Definition bob := Users.mk "U2" "bob" "bob@example.com" "Bob" "B" false.
Definition ghost := Users.mk "U3" "ghost" "ghost@example.com" "Ghost" "G" true.
Definition dave := Users.mk "U4" "dave" "dave@example.com" "Dave" "D" false.

Definition alice_G1 := UserGroupMembership.mk "m1" "U1" "G1" true.
Definition bob_G1 := UserGroupMembership.mk "m2" "U2" "G1" false.
Definition bob_G2 := UserGroupMembership.mk "m3" "U2" "G2" true.
Definition ghost_G1 := UserGroupMembership.mk "m4" "U3" "G1" false.
Definition dave_G1 := UserGroupMembership.mk "m5" "U4" "G1" false.
Definition bob_G3 := UserGroupMembership.mk "m6" "U2" "G3" false.

Definition G1_P1 := GroupProjectMembership.mk "gp1" "G1" "P1".
Definition G1_P2 := GroupProjectMembership.mk "gp2" "G1" "P2".
Definition G2_P3 := GroupProjectMembership.mk "gp3" "G2" "P3".

Definition db : Db :=
  mkDb [alice; bob; ghost; dave]
    [Groups.mk "G1" "O1" "Engineering" "eng" "member" None;
     Groups.mk "G2" "O1" "Operations" "ops" "custom" (Some "R7");
     Groups.mk "G3" "O1" "Guests" "guests" "viewer" None]
    [alice_G1; bob_G1; bob_G2; ghost_G1; dave_G1; bob_G3]
    [ProjectMembership.mk "pm1" "U1" "P1"]
    [G1_P1; G1_P2; G2_P3]
    [UserEncryptionKey.mk "U4" "pk-dave"].

Definition clk (tick : nat) : Z := 1700000000000 + Z.of_nat tick.
End Sample.

(** The database after one more grant row was inserted. *)
Definition with_grant (g : GroupProjectMembership.t) (d : Db) : Db :=
  mkDb (tUsers d) (tGroups d) (tUserGroupMembership d) (tProjectMembership d)
    (g :: tGroupProjectMembership d) (tUserEncryptionKey d).

(** * Properties *)

(** Case analysis on the rows of a literal table. *)
Ltac rows :=
  repeat match goal with
    | H : _ ∈ [] |- _ => by apply not_elem_of_nil in H
    | H : _ ∈ _ :: _ |- _ => apply elem_of_cons in H as [->|H]
    end.

Ltac in_table := repeat first [ by left | right ].

(** ** The query builder *)

Section KnexFacts.
Context {A B : Type} (on : A * B → Prop) `{∀ p, Decision (on p)}.

Lemma elem_of_join (l : list A) (r : list B) (a : A) (b : B) :
  (a, b) ∈ join on l r ↔ a ∈ l ∧ b ∈ r ∧ on (a, b).
Proof.
  unfold join. rewrite list_elem_of_bind. split.
  - intros (a' & Hin & Ha'). apply list_elem_of_fmap in Hin
      as (b' & Heq & Hb'). inversion Heq; subst.
    apply list_elem_of_filter in Hb'. tauto.
  - intros (Ha & Hb & Hon). exists a. split; [|done].
    apply list_elem_of_fmap. exists b. split; [done|].
    apply list_elem_of_filter. done.
Qed.

Lemma elem_of_leftJoin (l : list A) (r : list B) (a : A) (ob : option B) :
  (a, ob) ∈ leftJoin on l r ↔
  a ∈ l ∧ match ob with
          | Some b => b ∈ r ∧ on (a, b)
          | None => ∀ b, b ∈ r → ¬ on (a, b)
          end.
Proof.
  unfold leftJoin. rewrite list_elem_of_bind. split.
  - intros (a' & Hin & Ha'). split.
    + destruct (filter _ r) eqn:E.
      * apply list_elem_of_singleton in Hin. by inversion Hin; subst.
      * apply list_elem_of_fmap in Hin as (b' & Heq & _).
        by inversion Heq; subst.
    + destruct (filter (λ b, on (a', b)) r) as [|b0 bs] eqn:E.
      * apply list_elem_of_singleton in Hin. inversion Hin; subst.
        intros b Hb Hon.
        assert (b ∈ filter (λ b, on (a', b)) r) as Hf
          by (apply list_elem_of_filter; done).
        rewrite E in Hf. by apply not_elem_of_nil in Hf.
      * apply list_elem_of_fmap in Hin as (b' & Heq & Hb').
        inversion Heq; subst. rewrite <- E in Hb'.
        apply list_elem_of_filter in Hb'. tauto.
  - intros (Ha & Hob). exists a. split; [|done].
    destruct ob as [b|].
    + destruct Hob as (Hb & Hon).
      assert (b ∈ filter (λ b, on (a, b)) r) as Hf
        by (apply list_elem_of_filter; done).
      destruct (filter (λ b, on (a, b)) r) as [|b0 bs] eqn:E.
      * by apply not_elem_of_nil in Hf.
      * apply list_elem_of_fmap. by exists b.
    + destruct (filter (λ b, on (a, b)) r) as [|b0 bs] eqn:E.
      * apply list_elem_of_singleton. done.
      * exfalso. apply (Hob b0).
        -- assert (b0 ∈ filter (λ b, on (a, b)) r) as Hf
             by (rewrite E; left).
           apply list_elem_of_filter in Hf. tauto.
        -- assert (b0 ∈ filter (λ b, on (a, b)) r) as Hf
             by (rewrite E; left).
           apply list_elem_of_filter in Hf. tauto.
Qed.
End KnexFacts.

(** ** filterProjectsByUserMembership *)

Lemma filterProjects_run userId groupId projectIds w :
  (filterProjectsByUserMembership userId groupId projectIds w).1 =
  match first_fault 2 (faults w) with
  | Some f =>
      Rejected (mkDatabaseError f "Filter projects by user membership")
  | None =>
      Fulfilled (list_to_set
        (q_userProjectMemberships userId projectIds (tables w)
         ++ q_userGroupMemberships userId groupId projectIds (tables w)))
  end.
Proof. destruct w as [d [|[f|] [|[f'|] s]] c t]; reflexivity. Qed.

Lemma elem_of_q_userProjectMemberships userId projectIds d p :
  p ∈ q_userProjectMemberships userId projectIds d ↔
  p ∈ projectIds ∧ direct_member d userId p.
Proof.
  unfold q_userProjectMemberships, pluck, direct_member.
  rewrite list_elem_of_fmap. split.
  - intros (pm & -> & Hpm). apply list_elem_of_filter in Hpm.
    destruct Hpm as ((Hu & Hp) & Hin). eauto.
  - intros (Hp & pm & Hin & Hu & <-). exists pm. split; [done|].
    apply list_elem_of_filter. done.
Qed.

Lemma elem_of_q_userGroupMemberships userId groupId projectIds d p :
  p ∈ q_userGroupMemberships userId groupId projectIds d ↔
  p ∈ projectIds ∧ reachable_excluding d userId groupId p.
Proof.
  unfold q_userGroupMemberships, pluck, reachable_excluding, group_path.
  rewrite list_elem_of_fmap. split.
  - intros ([m g] & -> & Hrow). apply list_elem_of_filter in Hrow.
    destruct Hrow as ((Hu & Hne & Hp) & Hin).
    apply elem_of_join in Hin as (Hm & Hg & Hon). simpl in *.
    split; [done|]. exists m, g. done.
  - intros (Hp & m & g & (Hm & Hg & Hu & Hon & <-) & Hne).
    exists (m, g). split; [done|]. apply list_elem_of_filter.
    split; [done|]. apply elem_of_join. done.
Qed.

(** C1. On a store that answers, [filterProjectsByUserMembership] resolves to
    the set A ∪ B of the candidate projects: A the candidates with a direct
    project membership of the user, B the candidates reachable through a
    membership of the user in a group other than the excluded one that is
    granted to the project.  The set lists each project once, and holds
    candidates only. *)
Theorem filterProjects_union d clk userId excludedGroupId candidateProjectIds :
  ∃ result : gset string,
    resolved (filterProjectsByUserMembership userId excludedGroupId
                candidateProjectIds (reliable d clk)) = Some result
    ∧ (∀ p, p ∈ result ↔
            p ∈ candidateProjectIds
            ∧ (direct_member d userId p
               ∨ reachable_excluding d userId excludedGroupId p))
    ∧ NoDup (elements result)
    ∧ (∀ p, p ∈ result → p ∈ candidateProjectIds).
Proof.
  eexists. unfold resolved. rewrite filterProjects_run. simpl.
  split; [reflexivity|].
  assert (∀ p : string,
    p ∈ (list_to_set
           (q_userProjectMemberships userId candidateProjectIds d
            ++ q_userGroupMemberships userId excludedGroupId
                 candidateProjectIds d) : gset string) ↔
    p ∈ candidateProjectIds
    ∧ (direct_member d userId p
       ∨ reachable_excluding d userId excludedGroupId p)) as Hchar.
  { intros p. rewrite elem_of_list_to_set, elem_of_app,
      elem_of_q_userProjectMemberships, elem_of_q_userGroupMemberships.
    tauto. }
  split; [exact Hchar|]. split; [apply NoDup_elements|].
  intros p Hp. apply Hchar in Hp. tauto.
Qed.

(** C3. A project whose only path for the user runs through the excluded
    group (no direct membership, and every group path into it is a
    membership in the excluded group) is absent from the result. *)
Theorem filterProjects_exclusion d clk userId excludedGroupId
    candidateProjectIds p :
  ¬ direct_member d userId p →
  (∀ m g, group_path d userId p m g →
          UserGroupMembership.groupId m = excludedGroupId) →
  ∃ result : gset string,
    resolved (filterProjectsByUserMembership userId excludedGroupId
                candidateProjectIds (reliable d clk)) = Some result
    ∧ p ∉ result.
Proof.
  intros Hdirect Honly. eexists. unfold resolved.
  rewrite filterProjects_run. simpl. split; [reflexivity|].
  rewrite elem_of_list_to_set, elem_of_app,
    elem_of_q_userProjectMemberships, elem_of_q_userGroupMemberships.
  intros [[_ H]|[_ (m & g & Hpath & Hne)]]; [done|].
  apply Hne. by eapply Honly.
Qed.

(** C9. With no candidate project the result is the empty set. *)
Theorem filterProjects_no_candidates d clk userId excludedGroupId :
  resolved (filterProjectsByUserMembership userId excludedGroupId []
              (reliable d clk)) = Some ∅.
Proof.
  unfold resolved. rewrite filterProjects_run. simpl. f_equal.
  apply set_eq. intros p.
  rewrite elem_of_list_to_set, elem_of_app,
    elem_of_q_userProjectMemberships, elem_of_q_userGroupMemberships.
  split.
  - intros [[H _]|[H _]]; by apply not_elem_of_nil in H.
  - intros H. by apply not_elem_of_empty in H.
Qed.

(** ** findGroupMembersNotInProject *)

Lemma findGroupMembers_run groupId projectId w :
  (findGroupMembersNotInProject groupId projectId w).1 =
  match first_fault 2 (faults w) with
  | Some f =>
      Rejected (mkDatabaseError f "Find group members not in project")
  | None =>
      Fulfilled (to_member <$>
        q_members groupId projectId (q_groups groupId projectId (tables w))
          (tables w))
  end.
Proof. destruct w as [d [|[f|] [|[f'|] s]] c t]; reflexivity. Qed.

(** The users the sub-select of [whereNotIn] yields for the groups of the
    first query are the users with a path into the project through another
    group, pending or not. *)
Lemma elem_of_q_usersOfGroups groupId projectId d uid :
  uid ∈ q_usersOfGroups (q_groups groupId projectId d) d ↔
  reachable_excluding d uid groupId projectId.
Proof.
  unfold q_usersOfGroups, q_groups, pluck, reachable_excluding, group_path.
  rewrite list_elem_of_fmap. split.
  - intros (m & -> & Hm). apply list_elem_of_filter in Hm as (Hg & Hm).
    apply list_elem_of_fmap in Hg as (g & Heq & Hg).
    apply list_elem_of_filter in Hg as ((Hp & Hne) & Hg).
    exists m, g. rewrite Heq. done.
  - intros (m & g & (Hm & Hg & <- & Heq & Hp) & Hne).
    exists m. split; [done|]. apply list_elem_of_filter. split; [|done].
    apply list_elem_of_fmap. exists g. split; [done|].
    apply list_elem_of_filter. rewrite <- Heq. done.
Qed.

Lemma no_partner_iff_not_direct d uid projectId :
  (∀ pm, pm ∈ tProjectMembership d →
         ¬ (uid = ProjectMembership.userId pm
            ∧ ProjectMembership.projectId pm = projectId)) ↔
  ¬ direct_member d uid projectId.
Proof.
  unfold direct_member. split.
  - intros H (pm & Hin & Hu & Hp). by apply (H pm).
  - intros H pm Hin (Hu & Hp). apply H. by exists pm.
Qed.

Lemma elem_of_q_members groupId projectId groups d r :
  r ∈ q_members groupId projectId groups d ↔
  ∃ m u k,
    m ∈ tUserGroupMembership d ∧ u ∈ tUsers d
    ∧ UserGroupMembership.userId m = Users.id u
    ∧ UserGroupMembership.groupId m = groupId
    ∧ UserGroupMembership.isPending m = false
    ∧ Users.isGhost u = false
    ∧ ¬ direct_member d (Users.id u) projectId
    ∧ (UserGroupMembership.userId m ∉ q_usersOfGroups groups d)
    ∧ match k with
      | Some key => key ∈ tUserEncryptionKey d
                    ∧ UserEncryptionKey.userId key = Users.id u
      | None => ∀ key, key ∈ tUserEncryptionKey d →
                       UserEncryptionKey.userId key ≠ Users.id u
      end
    ∧ r = select_member (m, u, None, k).
Proof.
  unfold q_members. rewrite list_elem_of_fmap. split.
  - intros ([[[m u] opm] k] & -> & Hrow).
    apply list_elem_of_filter in Hrow as (Hw & Hin). simpl in Hw.
    destruct Hw as (Hg & Hpend & Hnull & Hghost & Hnotin).
    destruct opm as [pm|]; [done|].
    apply elem_of_leftJoin in Hin as (Hin & Hk).
    apply elem_of_leftJoin in Hin as (Hin & Hpm).
    apply elem_of_join in Hin as (Hm & Hu & Hon). simpl in *.
    exists m, u, k. split_and!; try done.
    by apply no_partner_iff_not_direct.
  - intros (m & u & k & Hm & Hu & Hon & Hg & Hpend & Hghost & Hdirect
            & Hnotin & Hk & ->).
    exists (m, u, None, k). split; [done|].
    apply list_elem_of_filter. split; [done|].
    apply elem_of_leftJoin. split.
    + apply elem_of_leftJoin. split; [by apply elem_of_join|].
      simpl. by apply no_partner_iff_not_direct.
    + destruct k; done.
Qed.

(** Some row of the left join carries a given left row. *)
Lemma leftJoin_total {A B} (on : A * B → Prop) `{∀ p, Decision (on p)}
    (l : list A) (r : list B) (a : A) :
  a ∈ l → ∃ ob, (a, ob) ∈ leftJoin on l r.
Proof.
  intros Ha. destruct (filter (λ b, on (a, b)) r) as [|b bs] eqn:E.
  - exists None. apply elem_of_leftJoin. split; [done|].
    intros b Hb Hon.
    assert (b ∈ filter (λ b, on (a, b)) r) as Hf
      by (apply list_elem_of_filter; done).
    rewrite E in Hf. by apply not_elem_of_nil in Hf.
  - exists (Some b). apply elem_of_leftJoin. split; [done|].
    assert (b ∈ filter (λ b, on (a, b)) r) as Hf by (rewrite E; left).
    apply list_elem_of_filter in Hf. tauto.
Qed.

(** The user ids of the result: the accepted, non-ghost members of the group
    without a direct membership and without a path through another group. *)
Lemma elem_of_member_userIds groupId projectId d uid :
  uid ∈ member_userIds
          (to_member <$> q_members groupId projectId
                           (q_groups groupId projectId d) d) ↔
  ∃ m u,
    m ∈ tUserGroupMembership d ∧ u ∈ tUsers d
    ∧ UserGroupMembership.userId m = uid ∧ Users.id u = uid
    ∧ UserGroupMembership.groupId m = groupId
    ∧ UserGroupMembership.isPending m = false
    ∧ Users.isGhost u = false
    ∧ ¬ direct_member d uid projectId
    ∧ ¬ reachable_excluding d uid groupId projectId.
Proof.
  unfold member_userIds. rewrite list_elem_of_fmap. split.
  - intros (gm & -> & Hgm). apply list_elem_of_fmap in Hgm as (r & -> & Hr).
    apply elem_of_q_members in Hr
      as (m & u & k & Hm & Hu & Hon & Hg & Hpend & Hghost & Hdirect
          & Hnotin & Hk & ->).
    simpl. exists m, u. split_and!; try done.
    rewrite <- elem_of_q_usersOfGroups. by rewrite <- Hon.
  - intros (m & u & Hm & Hu & <- & Hid & Hg & Hpend & Hghost & Hdirect
            & Hreach).
    destruct (leftJoin_total
                (λ on, UserEncryptionKey.userId on.2 = Users.id on.1)
                [u] (tUserEncryptionKey d) u) as (k & Hk); [left|].
    apply elem_of_leftJoin in Hk as (_ & Hk). simpl in Hk.
    exists (to_member (select_member (m, u, None, k))). split; [done|].
    apply list_elem_of_fmap_2. apply elem_of_q_members.
    exists m, u, k. split_and!; try done.
    + by rewrite Hid.
    + by rewrite elem_of_q_usersOfGroups.
Qed.

Lemma findGroupMembers_reliable d clk groupId projectId :
  resolved (findGroupMembersNotInProject groupId projectId (reliable d clk))
  = Some (to_member <$> q_members groupId projectId
                          (q_groups groupId projectId d) d).
Proof. unfold resolved. by rewrite findGroupMembers_run. Qed.

(** Rows of a table with a key are equal once their keys are. *)
Lemma key_determines_row {A K} (key : A → K) (l : list A) (x y : A) :
  NoDup (key <$> l) → x ∈ l → y ∈ l → key x = key y → x = y.
Proof.
  induction l as [|a l IH]; intros Hnd Hx Hy Heq.
  - by apply not_elem_of_nil in Hx.
  - rewrite fmap_cons in Hnd. apply NoDup_cons in Hnd as (Ha & Hnd).
    apply elem_of_cons in Hx as [->|Hx], Hy as [->|Hy]; [done|..].
    + exfalso. apply Ha. rewrite Heq. by apply list_elem_of_fmap_2.
    + exfalso. apply Ha. rewrite <- Heq. by apply list_elem_of_fmap_2.
    + by apply IH.
Qed.

(** C4. Every record [findGroupMembersNotInProject] returns is built from a
    membership row of the group with [isPending = false] and from the row of
    its user, which is not a ghost and has no direct membership in the
    project.  Hence, with ids that identify users and at most one membership
    row per (user, group), no ghost user and no pending member of the group
    is returned, whatever their other memberships. *)
Theorem findGroupMembers_accepted_only d clk groupId projectId :
  ∃ members,
    resolved (findGroupMembersNotInProject groupId projectId (reliable d clk))
    = Some members
    ∧ (∀ r, r ∈ members →
         ∃ m u,
           m ∈ tUserGroupMembership d ∧ u ∈ tUsers d
           ∧ UserGroupMembership.userId m = Users.id u
           ∧ UserGroupMembership.groupId m = groupId
           ∧ UserGroupMembership.isPending m = false
           ∧ Users.isGhost u = false
           ∧ ¬ direct_member d (Users.id u) projectId
           ∧ GroupMember.id r = UserGroupMembership.id m
           ∧ GroupMember.groupId r = groupId
           ∧ MemberUser.id (GroupMember.user r) = Users.id u
           ∧ MemberUser.username (GroupMember.user r) = Users.username u)
    ∧ (NoDup (Users.id <$> tUsers d) →
       ∀ u, u ∈ tUsers d → Users.isGhost u = true →
            Users.id u ∉ member_userIds members)
    ∧ (NoDup ((λ m, (UserGroupMembership.userId m,
                     UserGroupMembership.groupId m))
              <$> tUserGroupMembership d) →
       ∀ m, m ∈ tUserGroupMembership d →
            UserGroupMembership.groupId m = groupId →
            UserGroupMembership.isPending m = true →
            UserGroupMembership.userId m ∉ member_userIds members).
Proof.
  eexists. split; [apply findGroupMembers_reliable|]. split_and!.
  - intros r Hr. apply list_elem_of_fmap in Hr as (row & -> & Hrow).
    apply elem_of_q_members in Hrow
      as (m & u & k & Hm & Hu & Hon & Hg & Hpend & Hghost & Hdirect
          & _ & _ & ->).
    exists m, u. simpl. split_and!; done.
  - intros Hpk u Hu Hghost Hin.
    apply elem_of_member_userIds in Hin
      as (m' & u' & _ & Hu' & _ & Hid & _ & _ & Hghost' & _).
    assert (u' = u) as -> by (by eapply (key_determines_row Users.id)).
    congruence.
  - intros Hpk m Hm Hg Hpend Hin.
    apply elem_of_member_userIds in Hin
      as (m' & u' & Hm' & _ & Hid & _ & Hg' & Hpend' & _).
    assert (m' = m) as ->.
    { eapply (key_determines_row
                (λ m, (UserGroupMembership.userId m,
                       UserGroupMembership.groupId m))); [done..|].
      simpl. congruence. }
    congruence.
Qed.

(** C5. A user with a membership row in another group that is granted to the
    project is not returned by [findGroupMembersNotInProject]; in particular
    no accepted member of the group who has such a row is. *)
Theorem findGroupMembers_redundancy d clk groupId projectId uid :
  reachable_excluding d uid groupId projectId →
  ∃ members,
    resolved (findGroupMembersNotInProject groupId projectId (reliable d clk))
    = Some members
    ∧ uid ∉ member_userIds members.
Proof.
  intros Hreach. eexists. split; [apply findGroupMembers_reliable|].
  rewrite elem_of_member_userIds. intros (m & u & H). tauto.
Qed.

(** C6. The exclusion through other groups does not look at [isPending]:
    an accepted, non-ghost member of the group without a direct membership
    in the project, whose memberships in the other groups granted to the
    project are all still pending, is left out of the result, although the
    same call on the accepted memberships alone returns that user. *)
Theorem findGroupMembers_pending_elsewhere d clk groupId projectId m u m' g' :
  m ∈ tUserGroupMembership d →
  UserGroupMembership.groupId m = groupId →
  UserGroupMembership.isPending m = false →
  u ∈ tUsers d →
  Users.id u = UserGroupMembership.userId m →
  Users.isGhost u = false →
  ¬ direct_member d (Users.id u) projectId →
  group_path d (Users.id u) projectId m' g' →
  UserGroupMembership.groupId m' ≠ groupId →
  UserGroupMembership.isPending m' = true →
  (∀ m'' g'', group_path d (Users.id u) projectId m'' g'' →
              UserGroupMembership.groupId m'' ≠ groupId →
              UserGroupMembership.isPending m'' = true) →
  ∃ members members',
    resolved (findGroupMembersNotInProject groupId projectId (reliable d clk))
    = Some members
    ∧ (Users.id u ∉ member_userIds members)
    ∧ resolved (findGroupMembersNotInProject groupId projectId
                  (reliable (accepted_only d) clk))
      = Some members'
    ∧ Users.id u ∈ member_userIds members'.
Proof.
  intros Hm Hg Hpend Hu Hid Hghost Hdirect Hpath Hne Hpend' Honly.
  eexists. eexists.
  split; [apply findGroupMembers_reliable|]. split.
  { rewrite elem_of_member_userIds. intros (m0 & u0 & H).
    destruct H as (_ & _ & _ & _ & _ & _ & _ & _ & Hreach).
    apply Hreach. by exists m', g'. }
  split; [apply findGroupMembers_reliable|].
  apply elem_of_member_userIds. exists m, u. split_and!; try done.
  - simpl. apply list_elem_of_filter. done.
  - intros (m'' & g'' & (Hm'' & Hg'' & Hrest) & Hne'').
    simpl in Hm''. apply list_elem_of_filter in Hm'' as (Hacc & Hm'').
    assert (UserGroupMembership.isPending m'' = true) as Hp.
    { apply (Honly m'' g''); [|done]. split; done. }
    congruence.
Qed.

(** C7. [filterProjectsByUserMembership] does not look at [isPending]: a
    candidate project with a path through a pending membership in a group
    other than the excluded one is in the result; every record of
    [findGroupMembersNotInProject], in contrast, stems from a membership row
    that is not pending. *)
Theorem filterProjects_keeps_pending d clk userId excludedGroupId
    candidateProjectIds p m g :
  group_path d userId p m g →
  UserGroupMembership.isPending m = true →
  UserGroupMembership.groupId m ≠ excludedGroupId →
  p ∈ candidateProjectIds →
  (∃ result : gset string,
     resolved (filterProjectsByUserMembership userId excludedGroupId
                 candidateProjectIds (reliable d clk)) = Some result
     ∧ p ∈ result)
  ∧ (∀ groupId projectId, ∃ members,
       resolved (findGroupMembersNotInProject groupId projectId
                   (reliable d clk)) = Some members
       ∧ ∀ r, r ∈ members →
           ∃ m', m' ∈ tUserGroupMembership d
                 ∧ UserGroupMembership.id m' = GroupMember.id r
                 ∧ UserGroupMembership.isPending m' = false).
Proof.
  intros Hpath Hpend Hne Hp. split.
  - eexists. unfold resolved. rewrite filterProjects_run. simpl.
    split; [reflexivity|].
    rewrite elem_of_list_to_set, elem_of_app, elem_of_q_userGroupMemberships.
    right. split; [done|]. by exists m, g.
  - intros groupId projectId. eexists.
    split; [apply findGroupMembers_reliable|].
    intros r Hr. apply list_elem_of_fmap in Hr as (row & -> & Hrow).
    apply elem_of_q_members in Hrow
      as (m0 & u0 & k & Hm0 & _ & _ & _ & Hpend0 & _ & _ & _ & _ & ->).
    by exists m0.
Qed.

(** ** findUserGroupMembershipsInProject *)

Lemma findUserGroupMemberships_run usernames projectId w :
  (findUserGroupMembershipsInProject usernames projectId w).1 =
  match first_fault 1 (faults w) with
  | Some f =>
      Rejected (mkDatabaseError f "Find user group members in project")
  | None => Fulfilled (q_usernameDocs usernames projectId (tables w))
  end.
Proof. destruct w as [d [|[f|] s] c t]; reflexivity. Qed.

Lemma elem_of_q_usernameDocs usernames projectId d uid :
  uid ∈ q_usernameDocs usernames projectId d ↔
  ∃ m g u, group_path d uid projectId m g
           ∧ u ∈ tUsers d ∧ Users.id u = uid
           ∧ Users.username u ∈ usernames.
Proof.
  unfold q_usernameDocs, pluck, group_path. rewrite list_elem_of_fmap. split.
  - intros ([[m g] u] & -> & Hrow).
    apply list_elem_of_filter in Hrow as ((Hp & Hname) & Hin).
    apply elem_of_join in Hin as (Hin & Hu & Hon).
    apply elem_of_join in Hin as (Hm & Hg & Hon'). simpl in *.
    exists m, g, u. done.
  - intros (m & g & u & (Hm & Hg & Hmu & Hon & Hp) & Hu & Hid & Hname).
    exists (m, g, u). split; [done|]. apply list_elem_of_filter.
    split; [done|]. apply elem_of_join. split_and!; [|done|simpl; congruence].
    apply elem_of_join. done.
Qed.

(** C8. [findUserGroupMembershipsInProject] returns the ids of exactly the
    users whose username is among [usernames] and who have a membership row
    in a group granted to the project.  Neither [isPending] nor [isGhost]
    is looked at: the id of a ghost user with a pending membership is
    returned as well. *)
Theorem findUserGroupMemberships_exact d clk usernames projectId :
  ∃ ids,
    resolved (findUserGroupMembershipsInProject usernames projectId
                (reliable d clk)) = Some ids
    ∧ (∀ uid, uid ∈ ids ↔
              ∃ m g u, group_path d uid projectId m g
                       ∧ u ∈ tUsers d ∧ Users.id u = uid
                       ∧ Users.username u ∈ usernames)
    ∧ (∀ m g u (pending ghost : bool),
         group_path d (Users.id u) projectId m g →
         u ∈ tUsers d → Users.username u ∈ usernames →
         UserGroupMembership.isPending m = pending →
         Users.isGhost u = ghost →
         Users.id u ∈ ids).
Proof.
  eexists. unfold resolved. rewrite findUserGroupMemberships_run. simpl.
  split; [reflexivity|]. split.
  - intros uid. apply elem_of_q_usernameDocs.
  - intros m g u pending ghost Hpath Hu Hname _ _.
    apply elem_of_q_usernameDocs. by exists m, g, u.
Qed.

(** ** deletePendingUserGroupMembershipsByUserIds *)

Lemma mapM_to_removed {E} rows w :
  mapM (@to_removed E) rows w =
  (Fulfilled (stamped (clock w) (ticks w) rows),
   mkWorld (tables w) (faults w) (clock w) (ticks w + 2 * length rows)).
Proof.
  revert w. induction rows as [|row rows IH]; intros [d s c t].
  - simpl. unfold ret. do 2 f_equal. lia.
  - cbn [mapM]. unfold bind at 1. unfold to_removed, bind, new_Date, ret.
    cbn [tables faults clock ticks]. unfold bind in IH. rewrite IH.
    cbn [tables faults clock ticks length]. unfold stamped.
    rewrite imap_cons. f_equal.
    + f_equal. f_equal.
      * unfold removed_of. do 2 f_equal; f_equal; lia.
      * apply imap_ext. intros i x _. simpl. f_equal; f_equal; lia.
    + f_equal. lia.
Qed.

Lemma deletePending_run userIds w :
  deletePendingUserGroupMembershipsByUserIds userIds w =
  match first_fault 2 (faults w) with
  | Some f =>
      (Rejected (mkDatabaseError f
                   "Delete pending user group memberships by user ids"),
       mkWorld (tables w)
         (match faults w with Some _ :: s => s | _ => drop 2 (faults w) end)
         (clock w) (ticks w))
  | None =>
      let members := q_pendingMembers userIds (tables w) in
      (Fulfilled (stamped (clock w) (ticks w) members),
       mkWorld (after_delete userIds (tables w)) (drop 2 (faults w))
         (clock w) (ticks w + 2 * length members))
  end.
Proof.
  destruct w as [d [|[f|] [|[f'|] s]] c t]; try reflexivity.
  all: unfold deletePendingUserGroupMembershipsByUserIds, try_catch, bind,
         await_query, userGroupMembershipOrm_delete;
       cbn [next_fault advance faults tables clock ticks first_fault];
       rewrite mapM_to_removed; reflexivity.
Qed.

Lemma elem_of_q_pendingMembers userIds d m g u :
  (m, g, u) ∈ q_pendingMembers userIds d ↔
  m ∈ tUserGroupMembership d ∧ g ∈ tGroups d ∧ u ∈ tUsers d
  ∧ UserGroupMembership.groupId m = Groups.id g
  ∧ UserGroupMembership.userId m = Users.id u
  ∧ UserGroupMembership.userId m ∈ userIds
  ∧ UserGroupMembership.isPending m = true.
Proof.
  unfold q_pendingMembers. rewrite list_elem_of_filter.
  rewrite !elem_of_join. simpl. tauto.
Qed.

Lemma reported_pairs_stamped clk t0 rows :
  reported_pairs (stamped clk t0 rows) =
  (λ row, (UserGroupMembership.userId row.1.1,
           UserGroupMembership.groupId row.1.1)) <$> rows.
Proof.
  unfold reported_pairs, stamped. rewrite fmap_imap, <- imap_const.
  by apply imap_ext.
Qed.

(** The pairs of the report without any assumption on the tables: the
    pending rows of the users that have a group row and a user row. *)
Lemma elem_of_reported_pairs clk t0 userIds d uid gid :
  (uid, gid) ∈ reported_pairs (stamped clk t0 (q_pendingMembers userIds d)) ↔
  ∃ m g u,
    m ∈ tUserGroupMembership d ∧ g ∈ tGroups d ∧ u ∈ tUsers d
    ∧ UserGroupMembership.groupId m = Groups.id g
    ∧ UserGroupMembership.userId m = Users.id u
    ∧ UserGroupMembership.userId m = uid
    ∧ UserGroupMembership.groupId m = gid
    ∧ uid ∈ userIds
    ∧ UserGroupMembership.isPending m = true.
Proof.
  rewrite reported_pairs_stamped, list_elem_of_fmap. split.
  - intros ([[m g] u] & Heq & Hrow). simpl in Heq. inversion Heq; subst.
    apply elem_of_q_pendingMembers in Hrow. exists m, g, u. tauto.
  - intros (m & g & u & Hm & Hg & Hu & Hmg & Hmu & <- & <- & Hin & Hpend).
    exists (m, g, u). split; [done|]. apply elem_of_q_pendingMembers. done.
Qed.

(** C2. On tables whose membership rows point to existing users and groups,
    [deletePendingUserGroupMembershipsByUserIds] reports exactly the
    (user, group) pairs of the rows that were pending for the given users
    when it was called, and leaves in the table exactly the rows of the
    other users: every row of a given user is deleted, pending or not, and
    an accepted one is deleted without being reported. *)
Theorem deletePending_snapshot d clk userIds :
  foreign_keys d →
  ∃ removed w',
    deletePendingUserGroupMembershipsByUserIds userIds (reliable d clk)
    = (Fulfilled removed, w')
    ∧ (∀ uid gid,
         (uid, gid) ∈ reported_pairs removed ↔
         ∃ m, m ∈ tUserGroupMembership d
              ∧ UserGroupMembership.userId m = uid
              ∧ UserGroupMembership.groupId m = gid
              ∧ uid ∈ userIds
              ∧ UserGroupMembership.isPending m = true)
    ∧ tUserGroupMembership (tables w')
      = filter (λ m, UserGroupMembership.userId m ∉ userIds)
               (tUserGroupMembership d)
    ∧ (∀ m, m ∈ tUserGroupMembership d →
            UserGroupMembership.userId m ∈ userIds →
            m ∉ tUserGroupMembership (tables w'))
    ∧ (∀ m, m ∈ tUserGroupMembership d →
            UserGroupMembership.userId m ∈ userIds →
            UserGroupMembership.isPending m = false →
            (m ∉ tUserGroupMembership (tables w'))
            ∧ (NoDup ((λ m, (UserGroupMembership.userId m,
                             UserGroupMembership.groupId m))
                      <$> tUserGroupMembership d) →
               (UserGroupMembership.userId m, UserGroupMembership.groupId m)
               ∉ reported_pairs removed)).
Proof.
  intros Hfk. eexists. eexists. split.
  { rewrite deletePending_run. reflexivity. }
  cbn [tables reliable after_delete tUserGroupMembership clock ticks].
  assert (∀ m, m ∈ tUserGroupMembership d →
               UserGroupMembership.userId m ∈ userIds →
               m ∉ filter (λ m, UserGroupMembership.userId m ∉ userIds)
                          (tUserGroupMembership d)) as Hgone.
  { intros m Hm Hin Hf. apply list_elem_of_filter in Hf. tauto. }
  split_and!; [|done|done|].
  - intros uid gid. rewrite elem_of_reported_pairs. split.
    + intros (m & g & u & H). exists m. tauto.
    + intros (m & Hm & Hu & Hg & Hin & Hpend).
      unfold foreign_keys in Hfk. rewrite Forall_forall in Hfk.
      destruct (Hfk m Hm) as (Hfu & Hfg).
      apply list_elem_of_fmap in Hfu as (u & Hidu & Hinu).
      apply list_elem_of_fmap in Hfg as (g & Hidg & Hing).
      exists m, g, u. done.
  - intros m Hm Hin Hacc. split; [by apply Hgone|].
    intros Hkey Hrep. apply elem_of_reported_pairs in Hrep
      as (m' & g & u & Hm' & _ & _ & _ & _ & Hu & Hg & _ & Hpend).
    assert (m' = m) as ->.
    { eapply (key_determines_row
                (λ m, (UserGroupMembership.userId m,
                       UserGroupMembership.groupId m))); [done..|].
      simpl. congruence. }
    congruence.
Qed.

(** ** Storage faults *)

(** C10. Each of the four operations, when one of the statements it sends to
    the store fails, is rejected with a [DatabaseError] that carries the
    fault of the store and the fixed label of the operation, and resolves to
    no result; it is fulfilled only when none of its statements fails. *)
Theorem storage_fault_aborts w :
  (∀ userId groupId projectIds,
     settles "Filter projects by user membership" 2
       (filterProjectsByUserMembership userId groupId projectIds) w)
  ∧ (∀ usernames projectId,
       settles "Find user group members in project" 1
         (findUserGroupMembershipsInProject usernames projectId) w)
  ∧ (∀ groupId projectId,
       settles "Find group members not in project" 2
         (findGroupMembersNotInProject groupId projectId) w)
  ∧ (∀ userIds,
       settles "Delete pending user group memberships by user ids" 2
         (deletePendingUserGroupMembershipsByUserIds userIds) w).
Proof.
  unfold settles. split_and!; intros.
  - rewrite filterProjects_run. destruct (first_fault 2 (faults w)); eauto.
  - rewrite findUserGroupMemberships_run.
    destruct (first_fault 1 (faults w)); eauto.
  - rewrite findGroupMembers_run. destruct (first_fault 2 (faults w)); eauto.
  - rewrite deletePending_run. destruct (first_fault 2 (faults w)); eauto.
Qed.

(** * The properties on the small organisation *)

Example filterProjects_scenario :
  elements <$> resolved (filterProjectsByUserMembership "U1" EmptyString ["P1"; "P2"]
                           (reliable Sample.db Sample.clk))
  = Some ["P1"; "P2"].
Proof. vm_compute. reflexivity. Qed.

Example findGroupMembers_scenario :
  member_userIds <$> resolved (findGroupMembersNotInProject "G1" "P3"
                                 (reliable Sample.db Sample.clk))
  = Some ["U4"]
  ∧ member_userIds <$> resolved (findGroupMembersNotInProject "G1" "P3"
                                   (reliable (accepted_only Sample.db)
                                      Sample.clk))
    = Some ["U2"; "U4"].
Proof. split; vm_compute; reflexivity. Qed.

Example findUserGroupMemberships_scenario :
  resolved (findUserGroupMembershipsInProject ["alice"; "ghost"; "bob"] "P1"
              (reliable Sample.db Sample.clk))
  = Some ["U1"; "U2"; "U3"].
Proof. vm_compute. reflexivity. Qed.

Example deletePending_scenario :
  let r := deletePendingUserGroupMembershipsByUserIds ["U1"; "U2"]
             (reliable Sample.db Sample.clk) in
  reported_pairs <$> resolved r = Some [("U1", "G1"); ("U2", "G2")]
  ∧ tUserGroupMembership (tables r.2) = [Sample.ghost_G1; Sample.dave_G1].
Proof. split; vm_compute; reflexivity. Qed.

Example deletePending_fault_at_delete :
  let w := mkWorld Sample.db [None; Some (Fault "connection reset")]
             Sample.clk 0 in
  let r := deletePendingUserGroupMembershipsByUserIds ["U1"; "U2"] w in
  r.1 = Rejected (mkDatabaseError (Fault "connection reset")
                    "Delete pending user group memberships by user ids")
  ∧ tables r.2 = Sample.db.
Proof. split; vm_compute; reflexivity. Qed.

Lemma filterProjects_exclusion_witness :
  ¬ direct_member Sample.db "U1" "P2"
  ∧ ∃ result : gset string,
      resolved (filterProjectsByUserMembership "U1" "G1" ["P1"; "P2"]
                  (reliable Sample.db Sample.clk)) = Some result
      ∧ "P2" ∉ result.
Proof.
  assert (¬ direct_member Sample.db "U1" "P2") as Hdirect.
  { intros (pm & Hin & Hu & Hp). simpl in Hin. rows. discriminate. }
  split; [exact Hdirect|].
  apply (filterProjects_exclusion Sample.db Sample.clk "U1" "G1"
           ["P1"; "P2"] "P2" Hdirect).
  intros m g (Hm & Hg & Hu & Hon & Hp). simpl in Hm, Hg.
  rows; simpl in *; congruence.
Defined.

Lemma findGroupMembers_redundancy_witness :
  reachable_excluding Sample.db "U2" "G1" "P3"
  ∧ ∃ members,
      resolved (findGroupMembersNotInProject "G1" "P3"
                  (reliable Sample.db Sample.clk)) = Some members
      ∧ ("U2" ∉ member_userIds members).
Proof.
  assert (reachable_excluding Sample.db "U2" "G1" "P3") as Hreach.
  { exists Sample.bob_G2, Sample.G2_P3. unfold group_path. simpl.
    split_and!; try done; in_table. }
  split; [exact Hreach|].
  exact (findGroupMembers_redundancy Sample.db Sample.clk "G1" "P3" "U2"
           Hreach).
Defined.

Lemma findGroupMembers_pending_elsewhere_witness :
  ∃ members members',
    resolved (findGroupMembersNotInProject "G1" "P3"
                (reliable Sample.db Sample.clk)) = Some members
    ∧ ("U2" ∉ member_userIds members)
    ∧ resolved (findGroupMembersNotInProject "G1" "P3"
                  (reliable (accepted_only Sample.db) Sample.clk))
      = Some members'
    ∧ "U2" ∈ member_userIds members'.
Proof.
  apply (findGroupMembers_pending_elsewhere Sample.db Sample.clk "G1" "P3"
           Sample.bob_G1 Sample.bob Sample.bob_G2 Sample.G2_P3).
  - simpl. in_table.
  - reflexivity.
  - reflexivity.
  - simpl. in_table.
  - reflexivity.
  - reflexivity.
  - intros (pm & Hin & Hu & Hp). simpl in Hin. rows. discriminate.
  - unfold group_path. simpl. split_and!; try done; in_table.
  - discriminate.
  - reflexivity.
  - intros m g (Hm & Hg & Hu & Hon & Hp) Hne. simpl in Hm, Hg.
    rows; simpl in *; congruence.
Defined.

Lemma filterProjects_keeps_pending_witness :
  ∃ result : gset string,
    resolved (filterProjectsByUserMembership "U1" EmptyString ["P1"; "P2"]
                (reliable Sample.db Sample.clk)) = Some result
    ∧ "P2" ∈ result.
Proof.
  apply (filterProjects_keeps_pending Sample.db Sample.clk "U1" EmptyString
           ["P1"; "P2"] "P2" Sample.alice_G1 Sample.G1_P2).
  - unfold group_path. simpl. split_and!; try done; in_table.
  - reflexivity.
  - discriminate.
  - in_table.
Defined.

Lemma deletePending_snapshot_witness :
  foreign_keys Sample.db
  ∧ ∃ removed w',
      deletePendingUserGroupMembershipsByUserIds ["U1"; "U2"]
        (reliable Sample.db Sample.clk) = (Fulfilled removed, w')
      ∧ (∀ uid gid,
           (uid, gid) ∈ reported_pairs removed ↔
           ∃ m, m ∈ tUserGroupMembership Sample.db
                ∧ UserGroupMembership.userId m = uid
                ∧ UserGroupMembership.groupId m = gid
                ∧ uid ∈ ["U1"; "U2"]
                ∧ UserGroupMembership.isPending m = true)
      ∧ tUserGroupMembership (tables w')
        = filter (λ m, UserGroupMembership.userId m ∉ ["U1"; "U2"])
                 (tUserGroupMembership Sample.db).
Proof.
  assert (foreign_keys Sample.db) as Hfk.
  { unfold foreign_keys. simpl. repeat constructor; in_table. }
  split; [exact Hfk|].
  destruct (deletePending_snapshot Sample.db Sample.clk ["U1"; "U2"] Hfk)
    as (removed & w' & Hrun & Hpairs & Htable & _).
  exists removed, w'. split_and!; assumption.
Defined.

(** * Further properties of the four operations *)

(** ** filterProjectsByUserMembership *)

Lemma filterProjects_reliable d clk userId groupId projectIds :
  resolved (filterProjectsByUserMembership userId groupId projectIds
              (reliable d clk))
  = Some (list_to_set
            (q_userProjectMemberships userId projectIds d
             ++ q_userGroupMemberships userId groupId projectIds d)).
Proof. unfold resolved. by rewrite filterProjects_run. Qed.

Lemma elem_of_filterProjects d userId groupId projectIds p :
  p ∈ (list_to_set
         (q_userProjectMemberships userId projectIds d
          ++ q_userGroupMemberships userId groupId projectIds d)
       : gset string) ↔
  p ∈ projectIds
  ∧ (direct_member d userId p ∨ reachable_excluding d userId groupId p).
Proof.
  rewrite elem_of_list_to_set, elem_of_app,
    elem_of_q_userProjectMemberships, elem_of_q_userGroupMemberships.
  tauto.
Qed.

(** The result for a concatenation of candidate lists is the union of the
    results for the parts: a long candidate list may be filtered in batches. *)
Theorem filterProjects_batches d clk userId groupId l1 l2 :
  ∃ r1 r2 : gset string,
    resolved (filterProjectsByUserMembership userId groupId l1
                (reliable d clk)) = Some r1
    ∧ resolved (filterProjectsByUserMembership userId groupId l2
                  (reliable d clk)) = Some r2
    ∧ resolved (filterProjectsByUserMembership userId groupId (l1 ++ l2)
                  (reliable d clk)) = Some (r1 ∪ r2).
Proof.
  eexists. eexists. rewrite !filterProjects_reliable.
  split; [reflexivity|]. split; [reflexivity|]. f_equal.
  apply set_eq. intros p.
  rewrite elem_of_union, !elem_of_filterProjects, elem_of_app. tauto.
Qed.

(** Only the set of candidates matters: order and repetitions in
    [projectIds] do not change the result. *)
Theorem filterProjects_candidates_as_set d clk userId groupId l1 l2 :
  (∀ p : string, p ∈ l1 ↔ p ∈ l2) →
  resolved (filterProjectsByUserMembership userId groupId l1 (reliable d clk))
  = resolved (filterProjectsByUserMembership userId groupId l2
                (reliable d clk)).
Proof.
  intros Hsame. rewrite !filterProjects_reliable. f_equal.
  apply set_eq. intros p. rewrite !elem_of_filterProjects, Hsame. tauto.
Qed.

(** Excluding a group only takes projects away.  Against the result for a
    group id [none] the user has no membership row in (nothing is excluded),
    the result for [groupId] is a subset, and a project it misses has no
    direct membership of the user and a path through [groupId]. *)
Theorem filterProjects_exclusion_shrinks d clk userId groupId none projectIds :
  (∀ m, m ∈ tUserGroupMembership d →
        UserGroupMembership.userId m = userId →
        UserGroupMembership.groupId m ≠ none) →
  ∃ full r : gset string,
    resolved (filterProjectsByUserMembership userId none projectIds
                (reliable d clk)) = Some full
    ∧ resolved (filterProjectsByUserMembership userId groupId projectIds
                  (reliable d clk)) = Some r
    ∧ r ⊆ full
    ∧ ∀ p, p ∈ full → p ∉ r →
           ¬ direct_member d userId p
           ∧ ∃ m g, group_path d userId p m g
                    ∧ UserGroupMembership.groupId m = groupId.
Proof.
  intros Hnone. eexists. eexists. rewrite !filterProjects_reliable.
  split; [reflexivity|]. split; [reflexivity|]. split.
  - intros p. rewrite !elem_of_filterProjects.
    intros (Hp & [Hd|(m & g & Hpath & Hne)]); split; try done; [by left|].
    right. exists m, g. split; [done|].
    destruct Hpath as (Hm & _ & Hu & _). by apply Hnone.
  - intros p. rewrite !elem_of_filterProjects.
    intros (Hp & Hfull) Hnot.
    assert (¬ direct_member d userId p) as Hnd.
    { intros Hd. apply Hnot. split; [done|]. by left. }
    split; [done|]. destruct Hfull as [Hd|(m & g & Hpath & _)]; [done|].
    exists m, g. split; [done|].
    destruct (decide (UserGroupMembership.groupId m = groupId)) as [|Hne];
      [done|].
    exfalso. apply Hnot. split; [done|]. right. by exists m, g.
Qed.

(** A user without any project membership row and without any group
    membership row has no project, whatever the candidates. *)
Theorem filterProjects_unknown_user d clk userId groupId projectIds :
  (∀ pm, pm ∈ tProjectMembership d → ProjectMembership.userId pm ≠ userId) →
  (∀ m, m ∈ tUserGroupMembership d →
        UserGroupMembership.userId m ≠ userId) →
  resolved (filterProjectsByUserMembership userId groupId projectIds
              (reliable d clk)) = Some ∅.
Proof.
  intros Hpm Hm. rewrite filterProjects_reliable. f_equal.
  apply set_eq. intros p. rewrite elem_of_filterProjects. split.
  - intros (_ & [(pm & Hin & Hu & _)|(m & g & (Hin & _ & Hu & _) & _)]).
    + by destruct (Hpm pm Hin).
    + by destruct (Hm m Hin).
  - intros H. by apply not_elem_of_empty in H.
Qed.

(** ** findGroupMembersNotInProject *)

(** The result is complete: the user ids returned are exactly the users with
    an accepted membership row in the group and a non-ghost user row, without
    a direct membership in the project and without a membership row in
    another group granted to the project. *)
Theorem findGroupMembers_exact d clk groupId projectId :
  ∃ members,
    resolved (findGroupMembersNotInProject groupId projectId (reliable d clk))
    = Some members
    ∧ ∀ uid,
        uid ∈ member_userIds members ↔
        ∃ m u,
          m ∈ tUserGroupMembership d ∧ u ∈ tUsers d
          ∧ UserGroupMembership.userId m = uid ∧ Users.id u = uid
          ∧ UserGroupMembership.groupId m = groupId
          ∧ UserGroupMembership.isPending m = false
          ∧ Users.isGhost u = false
          ∧ ¬ direct_member d uid projectId
          ∧ ¬ reachable_excluding d uid groupId projectId.
Proof.
  eexists. split; [apply findGroupMembers_reliable|].
  intros uid. apply elem_of_member_userIds.
Qed.

(** The two operations agree.  For every user [findGroupMembersNotInProject]
    returns, [filterProjectsByUserMembership] with the same group excluded
    finds the project inaccessible; and an accepted, non-ghost member of the
    group for whom it does so is returned. *)
Theorem findGroupMembers_agrees_with_filterProjects d clk groupId projectId :
  ∃ members,
    resolved (findGroupMembersNotInProject groupId projectId (reliable d clk))
    = Some members
    ∧ (∀ uid, uid ∈ member_userIds members →
              resolved (filterProjectsByUserMembership uid groupId [projectId]
                          (reliable d clk)) = Some ∅)
    ∧ (∀ m u,
         m ∈ tUserGroupMembership d → u ∈ tUsers d →
         UserGroupMembership.userId m = Users.id u →
         UserGroupMembership.groupId m = groupId →
         UserGroupMembership.isPending m = false →
         Users.isGhost u = false →
         resolved (filterProjectsByUserMembership (Users.id u) groupId
                     [projectId] (reliable d clk)) = Some ∅ →
         Users.id u ∈ member_userIds members).
Proof.
  eexists. split; [apply findGroupMembers_reliable|]. split.
  - intros uid Hin. apply elem_of_member_userIds in Hin
      as (m & u & _ & _ & _ & _ & _ & _ & _ & Hdirect & Hreach).
    rewrite filterProjects_reliable. f_equal. apply set_eq. intros p.
    rewrite elem_of_filterProjects, list_elem_of_singleton. split.
    + intros (-> & [H|H]); done.
    + intros H. by apply not_elem_of_empty in H.
  - intros m u Hm Hu Hmu Hg Hpend Hghost Hempty.
    rewrite filterProjects_reliable in Hempty.
    assert (∀ p : string,
              ¬ (p ∈ [projectId]
                 ∧ (direct_member d (Users.id u) p
                    ∨ reachable_excluding d (Users.id u) groupId p))) as Hno.
    { intros p Hp. apply elem_of_filterProjects in Hp.
      inversion Hempty as [Heq]. rewrite Heq in Hp.
      by apply not_elem_of_empty in Hp. }
    apply elem_of_member_userIds. exists m, u. split_and!; try done.
    + intros Hd. apply (Hno projectId). split; [left|by left].
    + intros Hr. apply (Hno projectId). split; [left|by right].
Qed.


(** Whether the group itself is already granted to the project makes no
    difference: inserting a grant row of [groupId], for any project, leaves
    the result as it is. *)
Theorem findGroupMembers_ignores_own_grant d clk groupId projectId gid pid :
  resolved (findGroupMembersNotInProject groupId projectId
              (reliable (with_grant
                           (GroupProjectMembership.mk gid groupId pid) d)
                        clk))
  = resolved (findGroupMembersNotInProject groupId projectId
                (reliable d clk)).
Proof.
  rewrite !findGroupMembers_reliable. do 2 f_equal.
  assert (q_groups groupId projectId
            (with_grant (GroupProjectMembership.mk gid groupId pid) d)
          = q_groups groupId projectId d) as ->; [|reflexivity].
  unfold q_groups, with_grant. cbn [tGroupProjectMembership]. f_equal.
  rewrite filter_cons. cbn.
  destruct (decide (pid = projectId ∧ groupId ≠ groupId)) as [[_ H]|_];
    [done|reflexivity].
Qed.

(** A group without an accepted member (an unknown group id, or only pending
    invitations) yields the empty list. *)
Theorem findGroupMembers_no_accepted_member d clk groupId projectId :
  (∀ m, m ∈ tUserGroupMembership d →
        UserGroupMembership.groupId m = groupId →
        UserGroupMembership.isPending m = true) →
  resolved (findGroupMembersNotInProject groupId projectId (reliable d clk))
  = Some [].
Proof.
  intros Hnone. rewrite findGroupMembers_reliable. f_equal.
  apply elem_of_nil_inv. intros r Hr.
  apply list_elem_of_fmap in Hr as (row & -> & Hrow).
  apply elem_of_q_members in Hrow
    as (m & u & k & Hm & _ & _ & Hg & Hpend & _).
  rewrite (Hnone m Hm Hg) in Hpend. discriminate.
Qed.

Lemma filter_all {A} (P : A → Prop) `{∀ x, Decision (P x)} (l : list A) :
  (∀ x, x ∈ l → P x) → filter P l = l.
Proof.
  induction l as [|x l IH]; intros Hall; [done|].
  rewrite filter_cons. rewrite decide_True by (apply Hall; left).
  f_equal. apply IH. intros y Hy. apply Hall. by right.
Qed.

Lemma filter_none {A} (P : A → Prop) `{∀ x, Decision (P x)} (l : list A) :
  (∀ x, x ∈ l → ¬ P x) → filter P l = [].
Proof.
  intros Hnone. apply elem_of_nil_inv. intros x Hx.
  apply list_elem_of_filter in Hx as (HP & Hx). by apply (Hnone x).
Qed.

(** Joins of tables without repeated rows. *)
Section KnexNoDup.
Context {A B : Type} (on : A * B → Prop) `{∀ p, Decision (on p)}.

Lemma NoDup_join (l : list A) (r : list B) :
  NoDup l → NoDup r → NoDup (join on l r).
Proof.
  intros Hl Hr. unfold join. apply NoDup_bind; [| |done].
  - intros a1 a2 [a b] _ _ H1 H2.
    apply list_elem_of_fmap in H1 as (b1 & Heq1 & _).
    apply list_elem_of_fmap in H2 as (b2 & Heq2 & _). congruence.
  - intros a _. apply NoDup_fmap_2_strong; [|by apply NoDup_filter].
    intros b1 b2 _ _ Heq. congruence.
Qed.

Lemma leftJoin_cons (a : A) (l : list A) (r : list B) :
  leftJoin on (a :: l) r = (leftJoin on [a] r ++ leftJoin on l r)%list.
Proof. unfold leftJoin. csimpl. by rewrite app_nil_r. Qed.

Lemma leftJoin_singleton (a : A) (r : list B) :
  leftJoin on [a] r =
  match filter (λ b, on (a, b)) r with
  | [] => [(a, None)]
  | bs => (λ b, (a, Some b)) <$> bs
  end.
Proof. unfold leftJoin. csimpl. by rewrite app_nil_r. Qed.

Lemma NoDup_leftJoin (l : list A) (r : list B) :
  NoDup l → NoDup r → NoDup (leftJoin on l r).
Proof.
  intros Hl Hr. unfold leftJoin. apply NoDup_bind; [| |done].
  - intros a1 a2 [a ob] _ _ H1 H2.
    assert (∀ a', (a, ob) ∈ match filter (λ b, on (a', b)) r with
                           | [] => [(a', None)]
                           | b0 :: bs => (λ b, (a', Some b)) <$> b0 :: bs
                           end → a = a') as Hfst.
    { intros a' Hin. destruct (filter (λ b, on (a', b)) r).
      - apply list_elem_of_singleton in Hin. congruence.
      - apply list_elem_of_fmap in Hin as (b' & Heq & _). congruence. }
    rewrite <- (Hfst a1 H1). by apply Hfst.
  - intros a _. destruct (filter (λ b, on (a, b)) r) as [|b0 bs] eqn:E.
    + apply NoDup_singleton.
    + rewrite <- E. apply NoDup_fmap_2_strong; [|by apply NoDup_filter].
      intros b1 b2 _ _ Heq. congruence.
Qed.

Lemma NoDup_leftJoin_unmatched (l : list A) (r : list B) :
  NoDup l → NoDup (filter (λ x, x.2 = None) (leftJoin on l r)).
Proof.
  induction 1 as [|a l Ha Hl IH]; [apply NoDup_nil_2|].
  rewrite leftJoin_cons, filter_app. apply NoDup_app. split_and!; [| |done].
  - rewrite leftJoin_singleton.
    destruct (filter (λ b, on (a, b)) r) as [|b0 bs].
    + rewrite filter_cons, decide_True by done. apply NoDup_singleton.
    + rewrite filter_none; [apply NoDup_nil_2|].
      intros x Hx. apply list_elem_of_fmap in Hx as (b & -> & _). done.
  - intros [a' ob] H1 H2.
    apply list_elem_of_filter in H1 as (_ & H1).
    apply list_elem_of_filter in H2 as (_ & H2).
    apply elem_of_leftJoin in H1 as (H1 & _).
    apply elem_of_leftJoin in H2 as (H2 & _).
    apply list_elem_of_singleton in H1. by subst.
Qed.

Lemma filter_leftJoin (P : A * option B → Prop) `{∀ x, Decision (P x)}
    (Q : A → Prop) `{∀ a, Decision (Q a)} (l : list A) (r : list B) :
  (∀ x, P x ↔ Q x.1) →
  filter P (leftJoin on l r) = leftJoin on (filter Q l) r.
Proof.
  intros HPQ. rewrite (list_filter_iff P (λ x, Q x.1)) by done.
  induction l as [|a l IH]; [done|].
  rewrite leftJoin_cons, filter_app, IH, filter_cons.
  assert (∀ x, x ∈ leftJoin on [a] r → x.1 = a) as Hfst.
  { intros [a' ob] Hx. apply elem_of_leftJoin in Hx as (Hx & _).
    by apply list_elem_of_singleton in Hx. }
  case_decide as HQ.
  - rewrite filter_all; [by rewrite <- leftJoin_cons|].
    intros x Hx. by rewrite (Hfst x Hx).
  - rewrite filter_none; [done|].
    intros x Hx. by rewrite (Hfst x Hx).
Qed.
End KnexNoDup.

(** With the keys of the tables (one user row per id, one membership row per
    user and group, one key row per user) no user is returned twice. *)
Theorem findGroupMembers_no_duplicates d clk groupId projectId :
  NoDup (Users.id <$> tUsers d) →
  NoDup ((λ m, (UserGroupMembership.userId m, UserGroupMembership.groupId m))
         <$> tUserGroupMembership d) →
  NoDup (UserEncryptionKey.userId <$> tUserEncryptionKey d) →
  ∃ members,
    resolved (findGroupMembersNotInProject groupId projectId (reliable d clk))
    = Some members
    ∧ NoDup (member_userIds members).
Proof.
  intros Husers Hugm Hkeys. eexists.
  split; [apply findGroupMembers_reliable|].
  unfold member_userIds, q_members. rewrite <- !list_fmap_compose.
  rewrite <- (list_filter_filter_l _ (λ x, (λ y, y.2 = None) x.1)).
  2:{ intros [[mu opm] k] (_ & _ & Hnull & _). simpl in *.
      by destruct opm. }
  rewrite (filter_leftJoin _ _ (λ y, y.2 = None)) by (intros; reflexivity).
  apply NoDup_fmap_2_strong.
  - intros [[[m u] opm] k] [[[m' u'] opm'] k'] Hx Hy Heq. simpl in Heq.
    apply list_elem_of_filter in Hx as ((Hg & _) & Hx).
    apply list_elem_of_filter in Hy as ((Hg' & _) & Hy).
    apply elem_of_leftJoin in Hx as (Hx & Hk).
    apply elem_of_leftJoin in Hy as (Hy & Hk').
    apply list_elem_of_filter in Hx as (Hnull & Hx).
    apply list_elem_of_filter in Hy as (Hnull' & Hy).
    apply elem_of_leftJoin in Hx as (Hx & _).
    apply elem_of_leftJoin in Hy as (Hy & _).
    apply elem_of_join in Hx as (Hm & Hu & Hon).
    apply elem_of_join in Hy as (Hm' & Hu' & Hon').
    simpl in *. subst opm opm'.
    assert (u = u') as <- by (by eapply (key_determines_row Users.id)).
    assert (m = m') as <-.
    { eapply (key_determines_row
                (λ m, (UserGroupMembership.userId m,
                       UserGroupMembership.groupId m))); [done..|].
      simpl. congruence. }
    destruct k as [key|], k' as [key'|].
    + destruct Hk as (Hin & Hid), Hk' as (Hin' & Hid').
      assert (key = key') as <-; [|done].
      eapply (key_determines_row UserEncryptionKey.userId); [done..|].
      congruence.
    + destruct Hk as (Hin & Hid). by destruct (Hk' key Hin).
    + destruct Hk' as (Hin & Hid). by destruct (Hk key' Hin).
    + done.
  - apply NoDup_filter, NoDup_leftJoin; [|by eapply NoDup_fmap_1].
    apply NoDup_leftJoin_unmatched, NoDup_join; by eapply NoDup_fmap_1.
Qed.

Lemma findGroupMembers_no_duplicates_witness :
  ∃ members,
    resolved (findGroupMembersNotInProject "G1" "P3"
                (reliable Sample.db Sample.clk)) = Some members
    ∧ NoDup (member_userIds members).
Proof.
  apply (findGroupMembers_no_duplicates Sample.db Sample.clk "G1" "P3");
    by apply (bool_decide_unpack _); vm_compute.
Defined.

(** ** findUserGroupMembershipsInProject *)

Lemma findUserGroupMemberships_reliable d clk usernames projectId :
  resolved (findUserGroupMembershipsInProject usernames projectId
              (reliable d clk))
  = Some (q_usernameDocs usernames projectId d).
Proof. unfold resolved. by rewrite findUserGroupMemberships_run. Qed.

(** Without a username to look for, and for a project no group is granted
    to, the list is empty. *)
Theorem findUserGroupMemberships_nothing_to_find d clk :
  (∀ projectId,
     resolved (findUserGroupMembershipsInProject [] projectId
                 (reliable d clk)) = Some [])
  ∧ (∀ usernames projectId,
       (∀ g, g ∈ tGroupProjectMembership d →
             GroupProjectMembership.projectId g ≠ projectId) →
       resolved (findUserGroupMembershipsInProject usernames projectId
                   (reliable d clk)) = Some []).
Proof.
  split.
  - intros projectId. rewrite findUserGroupMemberships_reliable. f_equal.
    apply elem_of_nil_inv. intros uid Hin.
    apply elem_of_q_usernameDocs in Hin as (m & g & u & _ & _ & _ & Hname).
    by apply not_elem_of_nil in Hname.
  - intros usernames projectId Hnone.
    rewrite findUserGroupMemberships_reliable. f_equal.
    apply elem_of_nil_inv. intros uid Hin.
    apply elem_of_q_usernameDocs in Hin
      as (m & g & u & (_ & Hg & _ & _ & Hp) & _).
    by destruct (Hnone g Hg).
Qed.

(** The result is a list, not a set: the id of a user who reaches the project
    along two different pairs of membership row and grant row stands at two
    different positions. *)
Theorem findUserGroupMemberships_repeats d clk usernames projectId
    u m1 g1 m2 g2 :
  u ∈ tUsers d →
  Users.username u ∈ usernames →
  group_path d (Users.id u) projectId m1 g1 →
  group_path d (Users.id u) projectId m2 g2 →
  (m1, g1) ≠ (m2, g2) →
  ∃ ids i j,
    resolved (findUserGroupMembershipsInProject usernames projectId
                (reliable d clk)) = Some ids
    ∧ i ≠ j
    ∧ ids !! i = Some (Users.id u)
    ∧ ids !! j = Some (Users.id u).
Proof.
  intros Hu Hname Hp1 Hp2 Hne.
  assert (∀ m g, group_path d (Users.id u) projectId m g →
    ∃ i, q_usernameDocs usernames projectId d !! i = Some (Users.id u)
         ∧ filter (λ row, GroupProjectMembership.projectId row.1.2 = projectId
                          ∧ Users.username row.2 ∈ usernames)
             (join (λ on, UserGroupMembership.userId on.1.1 = Users.id on.2)
                (join (λ on, UserGroupMembership.groupId on.1
                             = GroupProjectMembership.groupId on.2)
                      (tUserGroupMembership d) (tGroupProjectMembership d))
                (tUsers d)) !! i = Some (m, g, u)) as Hpos.
  { intros m g (Hm & Hg & Hmu & Hon & Hp).
    assert ((m, g, u)
            ∈ filter (λ row, GroupProjectMembership.projectId row.1.2
                             = projectId
                             ∧ Users.username row.2 ∈ usernames)
                (join (λ on, UserGroupMembership.userId on.1.1
                             = Users.id on.2)
                   (join (λ on, UserGroupMembership.groupId on.1
                                = GroupProjectMembership.groupId on.2)
                         (tUserGroupMembership d) (tGroupProjectMembership d))
                   (tUsers d))) as Hin.
    { apply list_elem_of_filter. split; [done|].
      apply elem_of_join. split_and!; [|done|done].
      apply elem_of_join. done. }
    apply list_elem_of_lookup in Hin as (i & Hi). exists i. split; [|done].
    unfold q_usernameDocs, pluck. rewrite list_lookup_fmap, Hi. done. }
  destruct (Hpos m1 g1 Hp1) as (i & Hi & Hrow1).
  destruct (Hpos m2 g2 Hp2) as (j & Hj & Hrow2).
  eexists. exists i, j.
  split; [apply findUserGroupMemberships_reliable|]. split_and!; [|done|done].
  intros ->. rewrite Hrow1 in Hrow2. congruence.
Qed.

(** Every user the operation lists has the project among the projects
    [filterProjectsByUserMembership] finds when the excluded group is one the
    user has no membership row in. *)
Theorem findUserGroupMemberships_within_filterProjects d clk usernames
    projectId :
  ∃ ids,
    resolved (findUserGroupMembershipsInProject usernames projectId
                (reliable d clk)) = Some ids
    ∧ ∀ uid none,
        uid ∈ ids →
        (∀ m, m ∈ tUserGroupMembership d →
              UserGroupMembership.userId m = uid →
              UserGroupMembership.groupId m ≠ none) →
        ∃ projects : gset string,
          resolved (filterProjectsByUserMembership uid none [projectId]
                      (reliable d clk)) = Some projects
          ∧ projectId ∈ projects.
Proof.
  eexists. split; [apply findUserGroupMemberships_reliable|].
  intros uid none Hin Hnone.
  apply elem_of_q_usernameDocs in Hin as (m & g & u & Hpath & _).
  eexists. split; [apply filterProjects_reliable|].
  apply elem_of_filterProjects. split; [left|]. right. exists m, g.
  split; [done|]. destruct Hpath as (Hm & _ & Hu & _). by apply Hnone.
Qed.

(** ** The read operations never write *)

(** Whether the store answers or fails, the three read operations leave every
    table as it was. *)
Theorem read_operations_keep_tables w :
  (∀ userId groupId projectIds,
     tables (filterProjectsByUserMembership userId groupId projectIds w).2
     = tables w)
  ∧ (∀ usernames projectId,
       tables (findUserGroupMembershipsInProject usernames projectId w).2
       = tables w)
  ∧ (∀ groupId projectId,
       tables (findGroupMembersNotInProject groupId projectId w).2
       = tables w).
Proof.
  split_and!; intros;
    destruct w as [d [|[f|] [|[f'|] s]] c t]; reflexivity.
Qed.

(** ** deletePendingUserGroupMembershipsByUserIds *)

Lemma q_pendingMembers_none userIds d :
  (∀ m, m ∈ tUserGroupMembership d →
        UserGroupMembership.userId m ∉ userIds) →
  q_pendingMembers userIds d = [].
Proof.
  intros Hnone. apply elem_of_nil_inv. intros [[m g] u] Hin.
  apply elem_of_q_pendingMembers in Hin as (Hm & _ & _ & _ & _ & Hu & _).
  by apply (Hnone m Hm).
Qed.

Lemma after_delete_gone userIds d m :
  m ∈ tUserGroupMembership (after_delete userIds d) →
  UserGroupMembership.userId m ∉ userIds.
Proof.
  unfold after_delete. simpl. rewrite list_elem_of_filter. tauto.
Qed.

(** A second call with the same user ids finds nothing to report and
    deletes nothing: the first call left no row of these users. *)
Theorem deletePending_twice d clk userIds :
  ∃ removed w1 w2,
    deletePendingUserGroupMembershipsByUserIds userIds (reliable d clk)
    = (Fulfilled removed, w1)
    ∧ deletePendingUserGroupMembershipsByUserIds userIds w1
      = (Fulfilled [], w2)
    ∧ tables w2 = tables w1.
Proof.
  eexists. eexists. eexists. split.
  { rewrite deletePending_run. reflexivity. }
  cbn [reliable tables faults clock ticks].
  rewrite deletePending_run. cbn [tables faults clock ticks drop first_fault].
  rewrite (q_pendingMembers_none userIds (after_delete userIds d))
    by apply after_delete_gone.
  split; [reflexivity|]. cbn [tables].
  unfold after_delete at 1. cbn [tUsers tGroups tUserGroupMembership
    tProjectMembership tGroupProjectMembership tUserEncryptionKey
    after_delete].
  unfold after_delete. f_equal.
  apply list_filter_filter_l. done.
Qed.

(** Without a user id nothing is reported and no row is deleted. *)
Theorem deletePending_no_users d clk :
  ∃ w',
    deletePendingUserGroupMembershipsByUserIds [] (reliable d clk)
    = (Fulfilled [], w')
    ∧ tables w' = d.
Proof.
  eexists. split.
  { rewrite deletePending_run. cbn [reliable tables faults clock ticks
      first_fault]. cbv zeta.
    rewrite (q_pendingMembers_none [] d) by (intros m _; apply not_elem_of_nil).
    reflexivity. }
  cbn [tables]. unfold after_delete. destruct d as [us gs ms pms gpms ks].
  cbn [tUsers tGroups tUserGroupMembership tProjectMembership
       tGroupProjectMembership tUserEncryptionKey]. f_equal.
  apply filter_all. intros m _. apply not_elem_of_nil.
Qed.

(** When the snapshot query fails, the call is rejected before the delete is
    sent: no row is deleted, and the statements queued after the snapshot
    are left for later calls. *)
Theorem deletePending_snapshot_fault d f script clk t userIds :
  deletePendingUserGroupMembershipsByUserIds userIds
    (mkWorld d (Some f :: script) clk t)
  = (Rejected (mkDatabaseError f
                 "Delete pending user group memberships by user ids"),
     mkWorld d script clk t).
Proof. by rewrite deletePending_run. Qed.

(** Each record of the report is made from one row of the snapshot: a pending
    membership row of a given user, joined with the row of its group and the
    row of its user as they were before the delete.  The timestamps of the
    record at index [i] are the clock readings [2 i] and [2 i + 1] of the
    call, not columns of the group. *)
Theorem deletePending_report_rows d clk userIds :
  ∃ removed w',
    deletePendingUserGroupMembershipsByUserIds userIds (reliable d clk)
    = (Fulfilled removed, w')
    ∧ ∀ i r, removed !! i = Some r →
        ∃ m g u,
          m ∈ tUserGroupMembership d ∧ g ∈ tGroups d ∧ u ∈ tUsers d
          ∧ UserGroupMembership.groupId m = Groups.id g
          ∧ UserGroupMembership.userId m = Users.id u
          ∧ UserGroupMembership.userId m ∈ userIds
          ∧ UserGroupMembership.isPending m = true
          ∧ r = removed_of (m, g, u) (clk (2 * i)) (clk (2 * i + 1)).
Proof.
  eexists. eexists. split.
  { rewrite deletePending_run. reflexivity. }
  cbn [reliable tables clock ticks]. intros i r Hi.
  unfold stamped in Hi. rewrite list_lookup_imap in Hi.
  destruct (q_pendingMembers userIds d !! i) as [[[m g] u]|] eqn:E;
    [|discriminate].
  simpl in Hi. inversion Hi; subst r.
  apply list_elem_of_lookup_2 in E. apply elem_of_q_pendingMembers in E.
  exists m, g, u. split_and!; tauto.
Qed.

(** ** The operations after a delete *)

Lemma deletePending_reliable_world d clk userIds :
  ∃ removed w',
    deletePendingUserGroupMembershipsByUserIds userIds (reliable d clk)
    = (Fulfilled removed, w')
    ∧ tables w' = after_delete userIds d ∧ faults w' = [].
Proof.
  eexists. eexists. split.
  { rewrite deletePending_run. reflexivity. }
  done.
Qed.

Lemma reachable_after_delete userIds d uid groupId projectId :
  reachable_excluding (after_delete userIds d) uid groupId projectId ↔
  reachable_excluding d uid groupId projectId ∧ uid ∉ userIds.
Proof.
  unfold reachable_excluding, group_path, after_delete. simpl. split.
  - intros (m & g & (Hm & Hg & Hu & Hon & Hp) & Hne).
    apply list_elem_of_filter in Hm as (Hnot & Hm). split.
    + exists m, g. done.
    + by rewrite <- Hu.
  - intros ((m & g & (Hm & Hg & Hu & Hon & Hp) & Hne) & Hnot).
    exists m, g. split_and!; try done.
    apply list_elem_of_filter. split; [|done]. by rewrite Hu.
Qed.

(** After the delete, a user whose id was given reaches a project through a
    direct membership only: [filterProjectsByUserMembership] returns exactly
    the candidates with a direct membership row, whatever group is
    excluded. *)
Theorem filterProjects_after_delete d clk userIds uid groupId projectIds :
  uid ∈ userIds →
  ∃ removed w' (projects : gset string),
    deletePendingUserGroupMembershipsByUserIds userIds (reliable d clk)
    = (Fulfilled removed, w')
    ∧ resolved (filterProjectsByUserMembership uid groupId projectIds w')
      = Some projects
    ∧ ∀ p, p ∈ projects ↔ p ∈ projectIds ∧ direct_member d uid p.
Proof.
  intros Hin.
  destruct (deletePending_reliable_world d clk userIds)
    as (removed & w' & Hrun & Htables & Hfaults).
  exists removed, w'. eexists. split; [done|].
  unfold resolved. rewrite filterProjects_run, Hfaults, Htables.
  cbn [first_fault]. split; [reflexivity|].
  intros p. rewrite elem_of_filterProjects, reachable_after_delete.
  unfold direct_member, after_delete. simpl. tauto.
Qed.

(** After the delete, [findGroupMembersNotInProject] returns the users it
    returned before, less the users whose ids were given: the delete changes
    the answer for no other user. *)
Theorem findGroupMembers_after_delete d clk userIds groupId projectId :
  ∃ removed w' before after,
    deletePendingUserGroupMembershipsByUserIds userIds (reliable d clk)
    = (Fulfilled removed, w')
    ∧ resolved (findGroupMembersNotInProject groupId projectId
                  (reliable d clk)) = Some before
    ∧ resolved (findGroupMembersNotInProject groupId projectId w')
      = Some after
    ∧ ∀ uid, uid ∈ member_userIds after ↔
             uid ∈ member_userIds before ∧ uid ∉ userIds.
Proof.
  destruct (deletePending_reliable_world d clk userIds)
    as (removed & w' & Hrun & Htables & Hfaults).
  exists removed, w'. eexists. eexists. split; [done|].
  split; [apply findGroupMembers_reliable|].
  unfold resolved. rewrite findGroupMembers_run, Hfaults, Htables.
  cbn [first_fault]. split; [reflexivity|].
  intros uid. rewrite !elem_of_member_userIds. split.
  - intros (m & u & Hm & Hu & Hmu & Hid & Hg & Hpend & Hghost & Hdirect
            & Hreach).
    simpl in Hm. apply list_elem_of_filter in Hm as (Hnot & Hm).
    rewrite Hmu in Hnot. split; [|done].
    exists m, u. split_and!; try done.
    intros Hr. apply Hreach. by apply reachable_after_delete.
  - intros ((m & u & Hm & Hu & Hmu & Hid & Hg & Hpend & Hghost & Hdirect
             & Hreach) & Hnot).
    exists m, u. split_and!; try done.
    + simpl. apply list_elem_of_filter. split; [|done]. by rewrite Hmu.
    + intros Hr. apply Hreach. by apply reachable_after_delete in Hr as (Hr & _).
Qed.

(** ** The further properties on the small organisation *)

Lemma filterProjects_candidates_as_set_witness :
  resolved (filterProjectsByUserMembership "U1" "G2" ["P1"; "P2"; "P1"]
              (reliable Sample.db Sample.clk))
  = resolved (filterProjectsByUserMembership "U1" "G2" ["P2"; "P1"]
                (reliable Sample.db Sample.clk)).
Proof.
  apply (filterProjects_candidates_as_set Sample.db Sample.clk "U1" "G2"
           ["P1"; "P2"; "P1"] ["P2"; "P1"]).
  intros p. split; intros Hp; rows; in_table.
Defined.

Lemma filterProjects_exclusion_shrinks_witness :
  ∃ full r : gset string,
    resolved (filterProjectsByUserMembership "U1" "G9" ["P1"; "P2"]
                (reliable Sample.db Sample.clk)) = Some full
    ∧ resolved (filterProjectsByUserMembership "U1" "G1" ["P1"; "P2"]
                  (reliable Sample.db Sample.clk)) = Some r
    ∧ r ⊆ full.
Proof.
  destruct (filterProjects_exclusion_shrinks Sample.db Sample.clk "U1" "G1"
              "G9" ["P1"; "P2"]) as (full & r & Hfull & Hr & Hsub & _).
  - intros m Hm Hu. simpl in Hm. rows; discriminate.
  - exists full, r. done.
Defined.

Lemma filterProjects_unknown_user_witness :
  resolved (filterProjectsByUserMembership "U9" "G1" ["P1"; "P2"]
              (reliable Sample.db Sample.clk)) = Some ∅.
Proof.
  apply (filterProjects_unknown_user Sample.db Sample.clk "U9" "G1"
           ["P1"; "P2"]).
  - intros pm Hin. simpl in Hin. rows; discriminate.
  - intros m Hin. simpl in Hin. rows; discriminate.
Defined.

Lemma findGroupMembers_no_accepted_member_witness :
  resolved (findGroupMembersNotInProject "G2" "P1"
              (reliable Sample.db Sample.clk)) = Some [].
Proof.
  apply (findGroupMembers_no_accepted_member Sample.db Sample.clk "G2" "P1").
  intros m Hin Hg. simpl in Hin. rows; first [discriminate | reflexivity].
Defined.

Lemma findUserGroupMemberships_repeats_witness :
  ∃ ids i j,
    resolved (findUserGroupMembershipsInProject ["bob"] "P1"
                (reliable (with_grant
                             (GroupProjectMembership.mk "gp4" "G3" "P1")
                             Sample.db)
                          Sample.clk)) = Some ids
    ∧ i ≠ j
    ∧ ids !! i = Some "U2"
    ∧ ids !! j = Some "U2".
Proof.
  apply (findUserGroupMemberships_repeats
           (with_grant (GroupProjectMembership.mk "gp4" "G3" "P1") Sample.db)
           Sample.clk ["bob"] "P1" Sample.bob
           Sample.bob_G1 Sample.G1_P1
           Sample.bob_G3 (GroupProjectMembership.mk "gp4" "G3" "P1")).
  - simpl. in_table.
  - simpl. in_table.
  - unfold group_path. simpl. split_and!; try done; in_table.
  - unfold group_path. simpl. split_and!; try done; in_table.
  - discriminate.
Defined.

Lemma filterProjects_after_delete_witness :
  ∃ removed w' (projects : gset string),
    deletePendingUserGroupMembershipsByUserIds ["U1"; "U2"]
      (reliable Sample.db Sample.clk) = (Fulfilled removed, w')
    ∧ resolved (filterProjectsByUserMembership "U1" "G9" ["P1"; "P2"] w')
      = Some projects
    ∧ ∀ p, p ∈ projects ↔
           p ∈ ["P1"; "P2"] ∧ direct_member Sample.db "U1" p.
Proof.
  apply (filterProjects_after_delete Sample.db Sample.clk ["U1"; "U2"] "U1"
           "G9" ["P1"; "P2"]).
  in_table.
Defined.

Example findUserGroupMemberships_two_paths :
  resolved (findUserGroupMembershipsInProject ["bob"] "P1"
              (reliable (with_grant
                           (GroupProjectMembership.mk "gp4" "G3" "P1")
                           Sample.db)
                        Sample.clk))
  = Some ["U2"; "U2"].
Proof. vm_compute. reflexivity. Qed.
